(** * ReplayTale: the playback clock and the mods-override state machine

    A shallow embedding of [src/index.ts] (class [ReplayTale]) and the
    properties of its mods reconciliation ([loadBeatmap], [loadReplay],
    [enableModsOverride], [disableModsOverride]) and of its clock
    ([loop], [play], [pause], [seek]).

    JavaScript numbers that carry time are IEEE-754 binary64 values and are
    modelled by Rocq's primitive floats; the mods identity is a bit-flag
    integer and the correction counter counts in steps of one, both are [Z]. *)

From Stdlib Require Import ZArith List String Bool Lia.
From Stdlib Require Import PrimFloat.
Import ListNotations.

Local Open Scope Z_scope.

(** ** Collaborator objects *)

(** Modelled from the spec: the class [Mods] (imported from
    [./osu/Mods/Mods]) is not among the sources.  A ModifierSet is an
    immutable value with a canonical numeric identity, and [new Mods(n)]
    builds the set whose identity is [n]. *)
Record Mods : Set := new_Mods { numeric : Z }.

(** A slot typed [number | null] in the source.  A class field declared
    without an initializer holds [undefined] until it is first assigned. *)
Inductive NumberOrNull : Set :=
| js_undefined
| js_null
| js_number (n : Z).

(** [x === null] *)
Definition is_null (x : NumberOrNull) : bool :=
  match x with
  | js_null => true
  | _ => false
  end.

(** Beatmap and Replay objects live on the heap and are handed to the
    methods by reference. *)
Definition BeatmapRef := nat.
Definition ReplayRef := nat.

(** Modelled from the spec: the external configuration [Settings], read with
    [Settings.get(key)] and written with [Settings.set(key, value)], for the
    three keys the frame loop reads. *)
Record Settings : Set := {
  AudioAutoSyncEnabled : bool;
  AudioAutoSyncThresholdMS : float;
  AudioAutoSyncDetectIssue : bool
}.

(** What the audio collaborator answers when the frame loop asks it:
    [getAudioCurrentTimeMS("beatmap")] and [getAudioOffsetMS("beatmap")]. *)
Record AudioReading : Set := {
  getAudioCurrentTimeMS : float;
  getAudioOffsetMS : float
}.

(** The commands the class gives to the renderer, the game instance, the
    audio handler, the console, the settings and the frame scheduler, in the
    order they happen: the method calls that act on them and the assignments
    to their properties.  Reads are not logged: the values of
    [Settings.get] are the [settings] of the state and the answers of the
    audio getters are an argument of the frame.  Nor are [Beatmap.getMods],
    [Beatmap.setMods], [new Mods] and the assignments to [replay.mods]:
    their effect is the content of [Beatmap_getMods] and [Replay_mods]. *)
Inductive Event : Set :=
| gameInstance_loadBeatmap (b : BeatmapRef)
| renderer_loadBeatmap (b : BeatmapRef)
| gameInstance_loadReplay (r : ReplayRef)
| renderer_loadReplay (r : ReplayRef)
| renderer_set_timestamp (t : float)
| gameInstance_set_time (t : float)
| audioHandler_setAudioOptions_playbackRate (track : string) (value : float)
| audioHandler_playAudio (track : string)
| audioHandler_pauseAudio (track : string)
| audioHandler_seekAudio (track : string) (seconds : float)
| console_warn (message : string)
| Settings_set_AudioAutoSyncEnabled (value : bool)
| requestAnimationFrame_loop.

(** ** The fields of class [ReplayTale] *)

Record ReplayTale : Set := {
  beatmap : option BeatmapRef;
  replay : option ReplayRef;
  isModsOverriden : bool;
  _replayModsNumeric : NumberOrNull;
  mods : option Mods;
  isPaused : bool;
  timestamp : float;
  _playbackRate : float;
  _autoSyncCount : Z;
  _autoSyncLastTime : float;
  lastFrameTimestamp : float
}.

(** The object together with what its methods reach: the [mods] field of
    every Beatmap ([getMods]/[setMods]) and Replay object, the global
    settings, and the log of collaborator calls. *)
Record World : Type := {
  this : ReplayTale;
  Beatmap_getMods : BeatmapRef -> Mods;
  Replay_mods : ReplayRef -> Mods;
  settings : Settings;
  trace : list Event
}.

(** *** Field assignments *)

Definition set_beatmap (v : option BeatmapRef) (o : ReplayTale) : ReplayTale :=
  {| beatmap := v; replay := replay o; isModsOverriden := isModsOverriden o;
     _replayModsNumeric := _replayModsNumeric o; mods := mods o;
     isPaused := isPaused o; timestamp := timestamp o;
     _playbackRate := _playbackRate o; _autoSyncCount := _autoSyncCount o;
     _autoSyncLastTime := _autoSyncLastTime o;
     lastFrameTimestamp := lastFrameTimestamp o |}.

Definition set_replay (v : option ReplayRef) (o : ReplayTale) : ReplayTale :=
  {| beatmap := beatmap o; replay := v; isModsOverriden := isModsOverriden o;
     _replayModsNumeric := _replayModsNumeric o; mods := mods o;
     isPaused := isPaused o; timestamp := timestamp o;
     _playbackRate := _playbackRate o; _autoSyncCount := _autoSyncCount o;
     _autoSyncLastTime := _autoSyncLastTime o;
     lastFrameTimestamp := lastFrameTimestamp o |}.

Definition set_isModsOverriden (v : bool) (o : ReplayTale) : ReplayTale :=
  {| beatmap := beatmap o; replay := replay o; isModsOverriden := v;
     _replayModsNumeric := _replayModsNumeric o; mods := mods o;
     isPaused := isPaused o; timestamp := timestamp o;
     _playbackRate := _playbackRate o; _autoSyncCount := _autoSyncCount o;
     _autoSyncLastTime := _autoSyncLastTime o;
     lastFrameTimestamp := lastFrameTimestamp o |}.

Definition set__replayModsNumeric (v : NumberOrNull) (o : ReplayTale) : ReplayTale :=
  {| beatmap := beatmap o; replay := replay o; isModsOverriden := isModsOverriden o;
     _replayModsNumeric := v; mods := mods o;
     isPaused := isPaused o; timestamp := timestamp o;
     _playbackRate := _playbackRate o; _autoSyncCount := _autoSyncCount o;
     _autoSyncLastTime := _autoSyncLastTime o;
     lastFrameTimestamp := lastFrameTimestamp o |}.

Definition set_mods (v : option Mods) (o : ReplayTale) : ReplayTale :=
  {| beatmap := beatmap o; replay := replay o; isModsOverriden := isModsOverriden o;
     _replayModsNumeric := _replayModsNumeric o; mods := v;
     isPaused := isPaused o; timestamp := timestamp o;
     _playbackRate := _playbackRate o; _autoSyncCount := _autoSyncCount o;
     _autoSyncLastTime := _autoSyncLastTime o;
     lastFrameTimestamp := lastFrameTimestamp o |}.

Definition set_isPaused (v : bool) (o : ReplayTale) : ReplayTale :=
  {| beatmap := beatmap o; replay := replay o; isModsOverriden := isModsOverriden o;
     _replayModsNumeric := _replayModsNumeric o; mods := mods o;
     isPaused := v; timestamp := timestamp o;
     _playbackRate := _playbackRate o; _autoSyncCount := _autoSyncCount o;
     _autoSyncLastTime := _autoSyncLastTime o;
     lastFrameTimestamp := lastFrameTimestamp o |}.

Definition set_timestamp (v : float) (o : ReplayTale) : ReplayTale :=
  {| beatmap := beatmap o; replay := replay o; isModsOverriden := isModsOverriden o;
     _replayModsNumeric := _replayModsNumeric o; mods := mods o;
     isPaused := isPaused o; timestamp := v;
     _playbackRate := _playbackRate o; _autoSyncCount := _autoSyncCount o;
     _autoSyncLastTime := _autoSyncLastTime o;
     lastFrameTimestamp := lastFrameTimestamp o |}.

Definition set__playbackRate (v : float) (o : ReplayTale) : ReplayTale :=
  {| beatmap := beatmap o; replay := replay o; isModsOverriden := isModsOverriden o;
     _replayModsNumeric := _replayModsNumeric o; mods := mods o;
     isPaused := isPaused o; timestamp := timestamp o;
     _playbackRate := v; _autoSyncCount := _autoSyncCount o;
     _autoSyncLastTime := _autoSyncLastTime o;
     lastFrameTimestamp := lastFrameTimestamp o |}.

Definition set__autoSyncCount (v : Z) (o : ReplayTale) : ReplayTale :=
  {| beatmap := beatmap o; replay := replay o; isModsOverriden := isModsOverriden o;
     _replayModsNumeric := _replayModsNumeric o; mods := mods o;
     isPaused := isPaused o; timestamp := timestamp o;
     _playbackRate := _playbackRate o; _autoSyncCount := v;
     _autoSyncLastTime := _autoSyncLastTime o;
     lastFrameTimestamp := lastFrameTimestamp o |}.

Definition set__autoSyncLastTime (v : float) (o : ReplayTale) : ReplayTale :=
  {| beatmap := beatmap o; replay := replay o; isModsOverriden := isModsOverriden o;
     _replayModsNumeric := _replayModsNumeric o; mods := mods o;
     isPaused := isPaused o; timestamp := timestamp o;
     _playbackRate := _playbackRate o; _autoSyncCount := _autoSyncCount o;
     _autoSyncLastTime := v;
     lastFrameTimestamp := lastFrameTimestamp o |}.

Definition set_lastFrameTimestamp (v : float) (o : ReplayTale) : ReplayTale :=
  {| beatmap := beatmap o; replay := replay o; isModsOverriden := isModsOverriden o;
     _replayModsNumeric := _replayModsNumeric o; mods := mods o;
     isPaused := isPaused o; timestamp := timestamp o;
     _playbackRate := _playbackRate o; _autoSyncCount := _autoSyncCount o;
     _autoSyncLastTime := _autoSyncLastTime o;
     lastFrameTimestamp := v |}.

(** [this.f = v] inside a world *)
Definition assign (f : ReplayTale -> ReplayTale) (w : World) : World :=
  {| this := f (this w); Beatmap_getMods := Beatmap_getMods w;
     Replay_mods := Replay_mods w; settings := settings w; trace := trace w |}.

(** a call on a collaborator, appended to the log *)
Definition emit (e : Event) (w : World) : World :=
  {| this := this w; Beatmap_getMods := Beatmap_getMods w;
     Replay_mods := Replay_mods w; settings := settings w;
     trace := trace w ++ [e] |}.

(** [b.setMods(m)]: replaces the mods of the one object [b] *)
Definition Beatmap_setMods (b : BeatmapRef) (m : Mods) (w : World) : World :=
  {| this := this w;
     Beatmap_getMods := fun x => if Nat.eqb x b then m else Beatmap_getMods w x;
     Replay_mods := Replay_mods w; settings := settings w; trace := trace w |}.

(** [r.mods = m] *)
Definition Replay_set_mods (r : ReplayRef) (m : Mods) (w : World) : World :=
  {| this := this w; Beatmap_getMods := Beatmap_getMods w;
     Replay_mods := fun x => if Nat.eqb x r then m else Replay_mods w x;
     settings := settings w; trace := trace w |}.

(** [Settings.set("AudioAutoSyncEnabled", v)] *)
Definition Settings_set_Enabled (v : bool) (w : World) : World :=
  {| this := this w; Beatmap_getMods := Beatmap_getMods w;
     Replay_mods := Replay_mods w;
     settings := {| AudioAutoSyncEnabled := v;
                    AudioAutoSyncThresholdMS := AudioAutoSyncThresholdMS (settings w);
                    AudioAutoSyncDetectIssue := AudioAutoSyncDetectIssue (settings w) |};
     trace := trace w ++ [Settings_set_AudioAutoSyncEnabled v] |}.

(** [a !== b] on mods identities *)
Definition neqb (a b : Z) : bool := negb (a =? b).

(** ** A freshly constructed object

    The field initializers of the class.  [_replayModsNumeric] has none. *)
Definition constructor : ReplayTale :=
  {| beatmap := None; replay := None; isModsOverriden := false;
     _replayModsNumeric := js_undefined; mods := None;
     isPaused := true; timestamp := 0%float;
     _playbackRate := 1%float; _autoSyncCount := 0;
     _autoSyncLastTime := 0%float; lastFrameTimestamp := 0%float |}.

Definition new_ReplayTale (bm : BeatmapRef -> Mods) (rp : ReplayRef -> Mods)
    (st : Settings) : World :=
  {| this := constructor; Beatmap_getMods := bm; Replay_mods := rp;
     settings := st; trace := [] |}.

(** ** Mods reconciliation *)

Definition loadBeatmap (b : BeatmapRef) (w : World) : World :=
  let w :=
    match mods (this w) with
    | Some m => Beatmap_setMods b m w
    | None => w
    end in
  let w :=
    match mods (this w), replay (this w) with
    | None, Some r =>
        if neqb (numeric (Replay_mods w r)) (numeric (Beatmap_getMods w b))
        then Beatmap_setMods b (Replay_mods w r) w
        else w
    | _, _ => w
    end in
  let w := assign (set_beatmap (Some b)) w in
  let w := emit (gameInstance_loadBeatmap b) w in
  emit (renderer_loadBeatmap b) w.

Definition loadReplay (r : ReplayRef) (w : World) : World :=
  let w := assign (set__replayModsNumeric (js_number (numeric (Replay_mods w r)))) w in
  let w :=
    match mods (this w) with
    | Some m => Replay_set_mods r m w
    | None => w
    end in
  let w :=
    match beatmap (this w) with
    | Some b =>
        if neqb (numeric (Beatmap_getMods w b)) (numeric (Replay_mods w r))
        then Beatmap_setMods b (Replay_mods w r) w
        else w
    | None => w
    end in
  let w := assign (set_replay (Some r)) w in
  let w := emit (gameInstance_loadReplay r) w in
  emit (renderer_loadReplay r) w.

(** [mods.numeric === this.mods?.numeric]: with [this.mods] null the right
    side is [undefined], which no number equals. *)
Definition same_as_override (m : Mods) (o : ReplayTale) : bool :=
  match mods o with
  | Some m' => numeric m =? numeric m'
  | None => false
  end.

Definition enableModsOverride (m : Mods) (w : World) : World :=
  let w := assign (set_isModsOverriden true) w in
  if same_as_override m (this w) then w
  else
    let w := assign (set_mods (Some m)) w in
    let w :=
      match replay (this w) with
      | Some r => Replay_set_mods r m w
      | None => w
      end in
    match beatmap (this w) with
    | Some b =>
        let oldMods := numeric (Beatmap_getMods w b) in
        let w := Beatmap_setMods b m w in
        if neqb oldMods (numeric m) then emit (renderer_loadBeatmap b) w else w
    | None => w
    end.

Section DisableOverride.

(** The value of [new Mods(undefined)].  The constructor of [Mods] is not
    among the sources, so nothing is assumed about it. *)
Variable Mods_of_undefined : Mods.

(** [new Mods(this._replayModsNumeric)], evaluated past the null test *)
Definition Mods_of (v : NumberOrNull) : Mods :=
  match v with
  | js_number n => new_Mods n
  | _ => Mods_of_undefined
  end.

Definition disableModsOverride (w : World) : World :=
  let w := assign (set_mods None) w in
  if is_null (_replayModsNumeric (this w)) then w
  else
    let oldReplayMods := Mods_of (_replayModsNumeric (this w)) in
    let w :=
      match replay (this w) with
      | Some r => Replay_set_mods r oldReplayMods w
      | None => w
      end in
    match beatmap (this w) with
    | Some b =>
        let oldMapMods := numeric (Beatmap_getMods w b) in
        let w := Beatmap_setMods b oldReplayMods w in
        if neqb oldMapMods (numeric oldReplayMods)
        then emit (renderer_loadBeatmap b) w
        else w
    | None => w
    end.

End DisableOverride.

(** ** The clock and the drift corrector *)

Local Open Scope float_scope.

(** [Math.abs(timeDiff) > Settings.get("AudioAutoSyncThresholdMS")] *)
Definition drifted (timeDiff threshold : float) : bool :=
  threshold <? abs timeDiff.

(** The body of [if (Settings.get("AudioAutoSyncDetectIssue"))]: the counter
    is incremented, the window test may then zero it, and the frame time is
    stored. *)
Definition detectIssue (time : float) (w : World) : World :=
  let w := assign (fun o => set__autoSyncCount (_autoSyncCount o + 1)%Z o) w in
  let w :=
    if 1000 <? timestamp (this w) - _autoSyncLastTime (this w)
    then assign (set__autoSyncCount 0%Z) w
    else w in
  assign (set__autoSyncLastTime time) w.

(** The body of [if (Settings.get("AudioAutoSyncEnabled"))] *)
Definition autoSync (time : float) (a : AudioReading) (w : World) : World :=
  let currTime := getAudioCurrentTimeMS a in
  let offset := getAudioOffsetMS a in
  let timeDiff := currTime - offset - timestamp (this w) in
  if drifted timeDiff (AudioAutoSyncThresholdMS (settings w)) then
    let w := emit (audioHandler_seekAudio "beatmap" (timestamp (this w) / 1000)) w in
    if AudioAutoSyncDetectIssue (settings w) then detectIssue time w else w
  else w.

(** The body of [if (this._autoSyncCount > 10)] *)
Definition disableAutoSync (w : World) : World :=
  let w := emit (console_warn "[Audio] Auto sync issue detected! Disabling audio auto sync!") w in
  let w := Settings_set_Enabled false w in
  assign (set__autoSyncCount 0%Z) w.

(** One frame.  [time] is the argument the scheduler passes, [a] what the
    audio collaborator reports during this frame. *)
Definition loop (time : float) (a : AudioReading) (w : World) : World :=
  if isPaused (this w) then w
  else
    let deltaTime := time - lastFrameTimestamp (this w) in
    let w := assign (fun o => set_timestamp (timestamp o + deltaTime * _playbackRate o) o) w in
    let w := emit (renderer_set_timestamp (timestamp (this w))) w in
    let w := emit (gameInstance_set_time (timestamp (this w))) w in
    let w := assign (set_lastFrameTimestamp time) w in
    let w := if AudioAutoSyncEnabled (settings w) then autoSync time a w else w in
    let w := if (10 <? _autoSyncCount (this w))%Z then disableAutoSync w else w in
    emit requestAnimationFrame_loop w.

(** [now] is the value of [performance.now()] *)
Definition play (now : float) (a : AudioReading) (w : World) : World :=
  let w := assign (set_isPaused false) w in
  let w := assign (set_lastFrameTimestamp now) w in
  let w := emit (audioHandler_playAudio "beatmap") w in
  let w := emit (audioHandler_seekAudio "beatmap" (timestamp (this w) / 1000)) w in
  loop (lastFrameTimestamp (this w)) a w.

Definition pause (w : World) : World :=
  let w := assign (set_isPaused true) w in
  emit (audioHandler_pauseAudio "beatmap") w.

Definition seek (t : float) (w : World) : World :=
  let w := assign (set_timestamp t) w in
  let w := emit (renderer_set_timestamp t) w in
  emit (audioHandler_seekAudio "beatmap" (t / 1000)) w.

(** the setter of [playbackRate] *)
Definition set_playbackRate (value : float) (w : World) : World :=
  let w := assign (set__playbackRate value) w in
  emit (audioHandler_setAudioOptions_playbackRate "beatmap" value) w.

Local Close Scope float_scope.

(** Frames delivered by the scheduler, oldest first *)
Fixpoint frames (fs : list (float * AudioReading)) (w : World) : World :=
  match fs with
  | [] => w
  | (time, a) :: fs' => frames fs' (loop time a w)
  end.

(** Successive [enableModsOverride] calls, oldest first *)
Fixpoint enableModsOverride_all (ms : list Mods) (w : World) : World :=
  match ms with
  | [] => w
  | m :: ms' => enableModsOverride_all ms' (enableModsOverride m w)
  end.

(** ** What the collaborators hold

    Modelled from the spec: [Renderer] has a settable [timestamp] and
    [GameInstance] a settable [time]; neither class is among the sources.
    The value of such a property is the last one assigned to it, [v0] being
    what it held before the log starts. *)
Definition renderer_timestamp (v0 : float) (tr : list Event) : float :=
  fold_left (fun v e => match e with renderer_set_timestamp t => t | _ => v end) tr v0.

Definition gameInstance_time (v0 : float) (tr : list Event) : float :=
  fold_left (fun v e => match e with gameInstance_set_time t => t | _ => v end) tr v0.

(** how many times the audio was re-seeked, warnings were printed, and
    auto-sync was written, in a log *)
Definition count_seekAudio (tr : list Event) : nat :=
  List.length (filter (fun e => match e with audioHandler_seekAudio _ _ => true | _ => false end) tr).

Definition count_warn (tr : list Event) : nat :=
  List.length (filter (fun e => match e with console_warn _ => true | _ => false end) tr).

Definition count_Settings_set (tr : list Event) : nat :=
  List.length (filter (fun e => match e with Settings_set_AudioAutoSyncEnabled _ => true | _ => false end) tr).

(** ** Scenarios *)

Module Scenario.

Definition sets : Settings :=
  {| AudioAutoSyncEnabled := true;
     AudioAutoSyncThresholdMS := 100%float;
     AudioAutoSyncDetectIssue := true |}.

(** Beatmap object 0 has native mods 0, every Replay object mods 8 *)
Definition fresh : World :=
  new_ReplayTale (fun _ => new_Mods 0) (fun _ => new_Mods 8) sets.

(** an audio element stuck at position 0 *)
Definition stuck : AudioReading :=
  {| getAudioCurrentTimeMS := 0%float; getAudioOffsetMS := 0%float |}.

(** [n] frames, [step] ms apart, the first one at [time] *)
Fixpoint every (n : nat) (time step : float) (a : AudioReading)
    : list (float * AudioReading) :=
  match n with
  | O => []
  | S n' => (time, a) :: every n' (time + step)%float step a
  end.

(** an audio element reporting a position five seconds in *)
Definition ahead : AudioReading :=
  {| getAudioCurrentTimeMS := 5000%float; getAudioOffsetMS := 0%float |}.

(** [play()] called when [performance.now()] is 2000 *)
Definition playing : World := play 2000%float stuck fresh.

(** a first drift correction, in the frame at 2016 *)
Definition corrected_once : World := loop 2016%float ahead playing.

(** the user seeks to 1:40 and presses play five seconds after the page
    was opened; the audio element stays at 0 *)
Definition far_ahead : World := play 5000%float stuck (seek 100000%float fresh).

(** twenty frames at 60 Hz, from 5016 to 5320 *)
Definition burst : list (float * AudioReading) :=
  every 20 5016%float 16%float stuck.

End Scenario.

(** ** Sequences of method calls

    What a user of the class can do with an object once it is constructed,
    with the frames the scheduler delivers in between. *)
Inductive Call : Set :=
| call_loadBeatmap (b : BeatmapRef)
| call_loadReplay (r : ReplayRef)
| call_enableModsOverride (m : Mods)
| call_disableModsOverride
| call_play (now : float) (a : AudioReading)
| call_pause
| call_seek (t : float)
| call_set_playbackRate (value : float)
| call_loop (time : float) (a : AudioReading).

Definition call (u : Mods) (c : Call) (w : World) : World :=
  match c with
  | call_loadBeatmap b => loadBeatmap b w
  | call_loadReplay r => loadReplay r w
  | call_enableModsOverride m => enableModsOverride m w
  | call_disableModsOverride => disableModsOverride u w
  | call_play now a => play now a w
  | call_pause => pause w
  | call_seek t => seek t w
  | call_set_playbackRate value => set_playbackRate value w
  | call_loop time a => loop time a w
  end.

(** oldest call first *)
Fixpoint calls (u : Mods) (cs : list Call) (w : World) : World :=
  match cs with
  | [] => w
  | c :: cs' => calls u cs' (call u c w)
  end.

(** *** What is observed of a state *)

(** [_replayModsNumeric] holds a number exactly when a replay is loaded, and
    is [undefined] otherwise *)
Definition replay_captured (o : ReplayTale) : bool :=
  match replay o, _replayModsNumeric o with
  | Some _, js_number _ => true
  | None, js_undefined => true
  | _, _ => false
  end.

(** the loaded replay and the loaded beatmap carry the identity of the
    active override *)
Definition override_applied (w : World) : bool :=
  match mods (this w) with
  | Some m =>
      match replay (this w) with
      | Some r => numeric (Replay_mods w r) =? numeric m
      | None => true
      end
      && match beatmap (this w) with
         | Some b => numeric (Beatmap_getMods w b) =? numeric m
         | None => true
         end
  | None => true
  end.

(** the loaded beatmap carries the identity of the loaded replay *)
Definition beatmap_follows_replay (w : World) : bool :=
  match beatmap (this w), replay (this w) with
  | Some b, Some r => numeric (Beatmap_getMods w b) =? numeric (Replay_mods w r)
  | _, _ => true
  end.

Definition mods_consistent (w : World) : bool :=
  replay_captured (this w) && override_applied w && beatmap_follows_replay w.

(** the part of a state the mods methods work on, and the part the clock
    works on *)
Definition mods_state (w : World)
    : option BeatmapRef * option ReplayRef * bool * NumberOrNull * option Mods
      * (BeatmapRef -> Mods) * (ReplayRef -> Mods) :=
  (beatmap (this w), replay (this w), isModsOverriden (this w),
   _replayModsNumeric (this w), mods (this w), Beatmap_getMods w, Replay_mods w).

Definition clock_state (w : World)
    : bool * float * float * Z * float * float * Settings :=
  (isPaused (this w), timestamp (this w), _playbackRate (this w),
   _autoSyncCount (this w), _autoSyncLastTime (this w),
   lastFrameTimestamp (this w), settings w).

Definition count_requestAnimationFrame (tr : list Event) : nat :=
  List.length (filter (fun e => match e with requestAnimationFrame_loop => true | _ => false end) tr).

Definition count_renderer_loadBeatmap (tr : list Event) : nat :=
  List.length (filter (fun e => match e with renderer_loadBeatmap _ => true | _ => false end) tr).

(** [renderer.loadBeatmap] of the beatmap loaded in [w], if its mods identity
    in [w'] is not the one it has in [w]; nothing otherwise *)
Definition reload_if_changed (w w' : World) : list Event :=
  match beatmap (this w) with
  | Some b =>
      if neqb (numeric (Beatmap_getMods w b)) (numeric (Beatmap_getMods w' b))
      then [renderer_loadBeatmap b]
      else []
  | None => []
  end.

(** A frame in which the drift corrector re-seeks and counts: playing,
    auto-sync and issue detection enabled, the audio drifted beyond the
    threshold, and the window test of line 162 not passed. *)
Definition counted (time : float) (a : AudioReading) (w : World) : bool :=
  let ts := (timestamp (this w)
             + (time - lastFrameTimestamp (this w)) * _playbackRate (this w))%float in
  negb (isPaused (this w))
  && AudioAutoSyncEnabled (settings w)
  && AudioAutoSyncDetectIssue (settings w)
  && drifted (getAudioCurrentTimeMS a - getAudioOffsetMS a - ts)%float
             (AudioAutoSyncThresholdMS (settings w))
  && negb (1000 <? ts - _autoSyncLastTime (this w))%float.

(** every frame of [fs] is a counted one, in the state it arrives in *)
Fixpoint all_counted (fs : list (float * AudioReading)) (w : World) : bool :=
  match fs with
  | [] => true
  | (time, a) :: fs' => counted time a w && all_counted fs' (loop time a w)
  end.

(** * Properties *)

(** ** Mods reconciliation *)

(** case analysis on every test the code performs *)
Ltac branches :=
  repeat (cbn in *; rewrite ?Nat.eqb_refl, ?Z.eqb_refl;
          match goal with
          | |- context [match ?c with _ => _ end] =>
              lazymatch c with
              | context [match _ with _ => _ end] => fail
              | _ => destruct c eqn:?
              end
          end);
  cbn in *.

Lemma enableModsOverride_fields (m : Mods) (w : World) :
  _replayModsNumeric (this (enableModsOverride m w)) = _replayModsNumeric (this w)
  /\ replay (this (enableModsOverride m w)) = replay (this w)
  /\ beatmap (this (enableModsOverride m w)) = beatmap (this w)
  /\ isModsOverriden (this (enableModsOverride m w)) = true.
Proof.
  unfold enableModsOverride, same_as_override. branches; auto.
Qed.

Lemma enableModsOverride_all_fields (ms : list Mods) (w : World) :
  _replayModsNumeric (this (enableModsOverride_all ms w)) = _replayModsNumeric (this w)
  /\ replay (this (enableModsOverride_all ms w)) = replay (this w)
  /\ beatmap (this (enableModsOverride_all ms w)) = beatmap (this w).
Proof.
  revert w. induction ms as [|m ms IH]; intro w; cbn [enableModsOverride_all].
  - auto.
  - destruct (IH (enableModsOverride m w)) as (H1 & H2 & H3).
    destruct (enableModsOverride_fields m w) as (E1 & E2 & E3 & _).
    rewrite H1, H2, H3. auto.
Qed.

Lemma loadReplay_fields (r : ReplayRef) (w : World) :
  _replayModsNumeric (this (loadReplay r w)) = js_number (numeric (Replay_mods w r))
  /\ replay (this (loadReplay r w)) = Some r
  /\ beatmap (this (loadReplay r w)) = beatmap (this w).
Proof.
  unfold loadReplay. branches; auto.
Qed.

(** what [disableModsOverride] leaves behind once an original identity has
    been captured *)
Lemma disableModsOverride_captured (u : Mods) (w : World) (n : Z) (r : ReplayRef) :
  _replayModsNumeric (this w) = js_number n ->
  replay (this w) = Some r ->
  let w' := disableModsOverride u w in
  Replay_mods w' r = new_Mods n
  /\ beatmap (this w') = beatmap (this w)
  /\ match beatmap (this w) with
     | Some b => Beatmap_getMods w' b = new_Mods n
     | None => True
     end.
Proof.
  intros Hn Hr. unfold disableModsOverride. cbn. rewrite Hn. cbn. rewrite Hr.
  branches; rewrite ?Nat.eqb_refl; auto.
Qed.

(** C1.  After a replay whose mods identity is [r] has been loaded, any
    sequence of [enableModsOverride] calls followed by one
    [disableModsOverride] leaves the replay's mods identity equal to [r],
    the identity captured when the replay was loaded, and a loaded beatmap's
    mods identity equal to [r] as well. *)
Theorem disableModsOverride_restores_original
    (u : Mods) (w : World) (R : ReplayRef) (ms : list Mods) :
  let r := numeric (Replay_mods w R) in
  let w' := disableModsOverride u (enableModsOverride_all ms (loadReplay R w)) in
  _replayModsNumeric (this (loadReplay R w)) = js_number r
  /\ numeric (Replay_mods w' R) = r
  /\ match beatmap (this w') with
     | Some b => numeric (Beatmap_getMods w' b) = r
     | None => True
     end.
Proof.
  intros r w'.
  destruct (loadReplay_fields R w) as (L1 & L2 & L3).
  destruct (enableModsOverride_all_fields ms (loadReplay R w)) as (E1 & E2 & E3).
  assert (Hn : _replayModsNumeric (this (enableModsOverride_all ms (loadReplay R w)))
               = js_number r) by (rewrite E1; exact L1).
  assert (Hr : replay (this (enableModsOverride_all ms (loadReplay R w))) = Some R)
    by (rewrite E2; exact L2).
  destruct (disableModsOverride_captured u _ r R Hn Hr) as (D1 & D2 & D3).
  fold w' in D1, D2, D3.
  split; [exact L1|]. split.
  - rewrite D1. reflexivity.
  - rewrite D2. destruct (beatmap (this (enableModsOverride_all ms (loadReplay R w)))).
    + rewrite D3. reflexivity.
    + exact I.
Qed.

Lemma neqb_false (a b : Z) : neqb a b = false -> a = b.
Proof.
  unfold neqb. intro H. apply Z.eqb_eq. destruct (a =? b); [reflexivity | discriminate H].
Qed.

(** C4.  With no override active and a beatmap [B] and a replay [R] whose
    mods identities differ, loading [B] then [R] and loading [R] then [B]
    both end with the mods identity of [B] and of [R] equal to the identity
    [R] came with. *)
Theorem replay_mods_win_in_either_order (w : World) (B : BeatmapRef) (R : ReplayRef) :
  mods (this w) = None ->
  numeric (Beatmap_getMods w B) <> numeric (Replay_mods w R) ->
  let r := numeric (Replay_mods w R) in
  let w1 := loadReplay R (loadBeatmap B w) in
  let w2 := loadBeatmap B (loadReplay R w) in
  (beatmap (this w1) = Some B /\ replay (this w1) = Some R
   /\ numeric (Beatmap_getMods w1 B) = r /\ numeric (Replay_mods w1 R) = r)
  /\ (beatmap (this w2) = Some B /\ replay (this w2) = Some R
      /\ numeric (Beatmap_getMods w2 B) = r /\ numeric (Replay_mods w2 R) = r).
Proof.
  intros Hm _. destruct w as [o gm rm st tr]. destruct o. cbn in Hm. subst.
  unfold loadReplay, loadBeatmap.
  split; branches; rewrite ?Nat.eqb_refl;
    repeat match goal with
           | H : neqb _ _ = false |- _ => apply neqb_false in H
           | H : (_ =? _)%nat = true |- _ => apply Nat.eqb_eq in H; subst
           end;
    repeat split; try congruence.
Qed.

Lemma replay_mods_win_in_either_order_witness :
  let w := Scenario.fresh in
  mods (this w) = None
  /\ numeric (Beatmap_getMods w 0%nat) <> numeric (Replay_mods w 0%nat)
  /\ numeric (Beatmap_getMods (loadReplay 0%nat (loadBeatmap 0%nat w)) 0%nat) = 8
  /\ numeric (Beatmap_getMods (loadBeatmap 0%nat (loadReplay 0%nat w)) 0%nat) = 8.
Proof.
  assert (Hm : mods (this Scenario.fresh) = None) by reflexivity.
  assert (Hd : numeric (Beatmap_getMods Scenario.fresh 0%nat)
               <> numeric (Replay_mods Scenario.fresh 0%nat))
    by (vm_compute; discriminate).
  pose proof (replay_mods_win_in_either_order Scenario.fresh 0%nat 0%nat Hm Hd)
    as ((_ & _ & H1 & _) & (_ & _ & H2 & _)).
  cbv zeta. split; [exact Hm|]. split; [exact Hd|]. split; [exact H1 | exact H2].
Defined.

(** C8.  Calling [enableModsOverride] a second time with the same mods
    changes nothing: the object, the mods of every beatmap and replay, the
    settings and the log of collaborator calls are those the first call
    left, so no [renderer.loadBeatmap] is issued by the second call. *)
Theorem enableModsOverride_twice (m : Mods) (w : World) :
  enableModsOverride m (enableModsOverride m w) = enableModsOverride m w
  /\ trace (enableModsOverride m (enableModsOverride m w))
     = trace (enableModsOverride m w).
Proof.
  assert (E : enableModsOverride m (enableModsOverride m w) = enableModsOverride m w).
  { destruct w as [o gm rm st tr]. destruct o.
    unfold enableModsOverride, same_as_override.
    branches; rewrite ?Z.eqb_refl; try reflexivity; congruence. }
  split; [exact E | rewrite E; reflexivity].
Qed.

(** [disableModsOverride] never writes [isModsOverriden]. *)
Lemma disableModsOverride_isModsOverriden (u : Mods) (w : World) :
  isModsOverriden (this (disableModsOverride u w)) = isModsOverriden (this w).
Proof.
  destruct w as [o gm rm st tr]. destruct o.
  unfold disableModsOverride. branches; reflexivity.
Qed.

(** C3, as the code behaves.  Every [enableModsOverride] call sets
    [isModsOverriden], also on the path that returns early; a following
    [disableModsOverride] clears the active override ([mods] is null again)
    but leaves [isModsOverriden] set. *)
Theorem isModsOverriden_stays_set (u m : Mods) (w : World) :
  isModsOverriden (this (enableModsOverride m w)) = true
  /\ mods (this (disableModsOverride u (enableModsOverride m w))) = None
  /\ isModsOverriden (this (disableModsOverride u (enableModsOverride m w))) = true.
Proof.
  destruct (enableModsOverride_fields m w) as (_ & _ & _ & E).
  split; [exact E|]. split.
  - destruct (enableModsOverride m w) as [o gm rm st tr]. destruct o.
    unfold disableModsOverride. branches; reflexivity.
  - rewrite disableModsOverride_isModsOverriden. exact E.
Qed.

(** C2, as the code behaves.  On an object on which [loadReplay] was never
    called, [_replayModsNumeric] is [undefined], which is not [null]:
    [disableModsOverride] goes on, replaces the loaded beatmap's mods by
    [new Mods(undefined)] and asks the renderer to reload the beatmap
    whenever the two identities differ. *)
Theorem disableModsOverride_without_replay
    (u : Mods) (bm : BeatmapRef -> Mods) (rp : ReplayRef -> Mods) (st : Settings)
    (B : BeatmapRef) :
  let w := loadBeatmap B (new_ReplayTale bm rp st) in
  let w' := disableModsOverride u w in
  _replayModsNumeric (this w) = js_undefined
  /\ Beatmap_getMods w B = bm B
  /\ Beatmap_getMods w' B = u
  /\ trace w' = trace w ++ (if neqb (numeric (bm B)) (numeric u)
                            then [renderer_loadBeatmap B] else []).
Proof.
  cbv zeta. unfold disableModsOverride, loadBeatmap, new_ReplayTale.
  branches; rewrite ?Nat.eqb_refl; auto.
Qed.

(** The same on one run, taking [new Mods(undefined)] to be the empty set of
    mods: a beatmap is loaded, an override with identity 16 is enabled and
    then disabled, and no replay is ever loaded.  The beatmap ends with
    identity 0 and the renderer is asked to reload it a second time. *)
Example disableModsOverride_without_replay_run :
  let w := enableModsOverride (new_Mods 16) (loadBeatmap 0%nat Scenario.fresh) in
  let w' := disableModsOverride (new_Mods 0) w in
  _replayModsNumeric (this w) = js_undefined
  /\ numeric (Beatmap_getMods w 0%nat) = 16
  /\ numeric (Beatmap_getMods w' 0%nat) = 0
  /\ trace w' = trace w ++ [renderer_loadBeatmap 0%nat].
Proof.
  vm_compute. repeat split.
Qed.

(** ** The clock *)

Lemma renderer_timestamp_app (v0 : float) (tr tr' : list Event) :
  renderer_timestamp v0 (tr ++ tr') = renderer_timestamp (renderer_timestamp v0 tr) tr'.
Proof. unfold renderer_timestamp. apply fold_left_app. Qed.

Lemma gameInstance_time_app (v0 : float) (tr tr' : list Event) :
  gameInstance_time v0 (tr ++ tr') = gameInstance_time (gameInstance_time v0 tr) tr'.
Proof. unfold gameInstance_time. apply fold_left_app. Qed.

(** the shapes the events between the two pushes and the re-scheduling can
    take: an optional re-seek, then an optional warning with its write *)
Ltac check_events :=
  split;
  [ rewrite <- ?app_assoc; cbn; reflexivity
  | let HIn := fresh "HIn" in
    intro HIn; cbn in HIn;
    repeat match goal with
           | H : _ \/ _ |- _ => destruct H as [H|H]
           end;
    first [ discriminate | contradiction ] ].

Ltac pick_events :=
  first [ exists []; check_events
        | eexists [_]; check_events
        | eexists [_; _]; check_events
        | eexists [_; _; _]; check_events ].

(** A frame while playing: the new timestamp, and the order of the calls. *)
Lemma loop_playing (time : float) (a : AudioReading) (w : World) :
  isPaused (this w) = false ->
  let ts := (timestamp (this w)
             + (time - lastFrameTimestamp (this w)) * _playbackRate (this w))%float in
  let w' := loop time a w in
  timestamp (this w') = ts
  /\ lastFrameTimestamp (this w') = time
  /\ isPaused (this w') = false
  /\ beatmap (this w') = beatmap (this w)
  /\ exists mid,
       trace w' = trace w ++ [renderer_set_timestamp ts; gameInstance_set_time ts]
                          ++ mid ++ [requestAnimationFrame_loop]
       /\ ~ In requestAnimationFrame_loop mid.
Proof.
  intro Hp. destruct w as [o gm rm st tr]. destruct o. cbn in Hp. subst.
  unfold loop, autoSync, detectIssue, disableAutoSync, drifted, Settings_set_Enabled.
  branches; repeat (split; [reflexivity|]); pick_events.
Qed.

(** What the renderer and the game instance hold after a frame while
    playing. *)
Lemma loop_playing_pushes (time : float) (a : AudioReading) (w : World) :
  isPaused (this w) = false ->
  let ts := (timestamp (this w)
             + (time - lastFrameTimestamp (this w)) * _playbackRate (this w))%float in
  forall v0,
    renderer_timestamp v0 (trace (loop time a w)) = ts
    /\ gameInstance_time v0 (trace (loop time a w)) = ts.
Proof.
  intros Hp ts v0. subst ts.
  destruct w as [o gm rm st tr]. destruct o. cbn in Hp. subst.
  unfold loop, autoSync, detectIssue, disableAutoSync, drifted, Settings_set_Enabled.
  branches; unfold renderer_timestamp, gameInstance_time;
    rewrite ?fold_left_app; split; reflexivity.
Qed.

(** C9.  A frame while paused changes nothing.  Otherwise it sets the
    timestamp to [timestamp + (time - lastFrameTimestamp) * playbackRate],
    sets [lastFrameTimestamp] to [time], and assigns the new timestamp to the
    renderer and then to the game instance; the request for the next frame
    is the last call of the frame. *)
Theorem loop_frame (time : float) (a : AudioReading) (w : World) :
  if isPaused (this w) then loop time a w = w
  else
    let ts := (timestamp (this w)
               + (time - lastFrameTimestamp (this w)) * _playbackRate (this w))%float in
    let w' := loop time a w in
    timestamp (this w') = ts
    /\ lastFrameTimestamp (this w') = time
    /\ (exists mid,
          trace w' = trace w ++ [renderer_set_timestamp ts; gameInstance_set_time ts]
                             ++ mid ++ [requestAnimationFrame_loop]
          /\ ~ In requestAnimationFrame_loop mid)
    /\ (forall v0, renderer_timestamp v0 (trace w') = ts)
    /\ (forall v0, gameInstance_time v0 (trace w') = ts).
Proof.
  destruct (isPaused (this w)) eqn:Hp.
  - unfold loop. rewrite Hp. reflexivity.
  - destruct (loop_playing time a w Hp) as (H1 & H2 & _ & _ & mid & Ht & Hn).
    cbv zeta. split; [exact H1|]. split; [exact H2|].
    split; [exists mid; split; assumption|].
    split; intro v0; apply (loop_playing_pushes time a w Hp v0).
Qed.

(** Frames that arrive while paused change nothing. *)
Lemma frames_paused (fs : list (float * AudioReading)) (w : World) :
  isPaused (this w) = true -> frames fs w = w.
Proof.
  intro Hp. induction fs as [|[time a] fs IH]; cbn [frames].
  - reflexivity.
  - unfold loop. rewrite Hp. exact IH.
Qed.

(** No method other than the frame loop assigns [gameInstance.time]. *)
Lemma gameInstance_time_only_in_loop (u : Mods) (w : World) (v0 : float) :
  (forall b, gameInstance_time v0 (trace (loadBeatmap b w)) = gameInstance_time v0 (trace w))
  /\ (forall r, gameInstance_time v0 (trace (loadReplay r w)) = gameInstance_time v0 (trace w))
  /\ (forall m, gameInstance_time v0 (trace (enableModsOverride m w))
                = gameInstance_time v0 (trace w))
  /\ gameInstance_time v0 (trace (disableModsOverride u w)) = gameInstance_time v0 (trace w)
  /\ gameInstance_time v0 (trace (pause w)) = gameInstance_time v0 (trace w)
  /\ (forall t, gameInstance_time v0 (trace (seek t w)) = gameInstance_time v0 (trace w))
  /\ (forall v, gameInstance_time v0 (trace (set_playbackRate v w))
                = gameInstance_time v0 (trace w)).
Proof.
  destruct w as [o gm rm st tr]. destruct o.
  unfold loadBeatmap, loadReplay, enableModsOverride, disableModsOverride, pause,
    seek, set_playbackRate, same_as_override.
  repeat split; intros; branches; unfold gameInstance_time;
    rewrite ?fold_left_app; reflexivity.
Qed.

(** What [seek] does to the object and to the log. *)
Lemma seek_effect (t : float) (w : World) :
  timestamp (this (seek t w)) = t
  /\ isPaused (this (seek t w)) = isPaused (this w)
  /\ trace (seek t w) = trace w ++ [renderer_set_timestamp t;
                                    audioHandler_seekAudio "beatmap" (t / 1000)%float].
Proof.
  unfold seek. cbn. rewrite <- app_assoc. repeat split.
Qed.

(** C10.  [seek(t)] sets the timestamp and the renderer's timestamp to [t]
    and re-seeks the audio to [t / 1000] seconds; it does not assign the
    game instance's time, and as long as the object is paused the frames
    that follow do not either. *)
Theorem seek_leaves_gameInstance_time (t : float) (w : World) :
  let w' := seek t w in
  timestamp (this w') = t
  /\ trace w' = trace w ++ [renderer_set_timestamp t;
                            audioHandler_seekAudio "beatmap" (t / 1000)%float]
  /\ (forall v0, renderer_timestamp v0 (trace w') = t)
  /\ (forall v0, gameInstance_time v0 (trace w') = gameInstance_time v0 (trace w))
  /\ isPaused (this w') = isPaused (this w)
  /\ (if isPaused (this w)
      then forall fs v0, gameInstance_time v0 (trace (frames fs w'))
                         = gameInstance_time v0 (trace w)
      else True).
Proof.
  cbv zeta. destruct (seek_effect t w) as (Hs & Hp' & Ht).
  assert (Hg : forall v0, gameInstance_time v0 (trace (seek t w))
                          = gameInstance_time v0 (trace w)).
  { intro v0. rewrite Ht, gameInstance_time_app. reflexivity. }
  split; [exact Hs|]. split; [exact Ht|]. split.
  { intro v0. rewrite Ht, renderer_timestamp_app. reflexivity. }
  split; [exact Hg|]. split; [exact Hp'|].
  destruct (isPaused (this w)) eqn:Hp; [|exact I].
  intros fs v0. rewrite frames_paused; [apply Hg | exact Hp'].
Qed.

(** [seek] and the frame loop do not read [this.beatmap]: run in a state
    that differs only in that field, they do the same and leave the field
    as it is. *)
Lemma seek_loop_ignore_beatmap
    (v : option BeatmapRef) (t time : float) (a : AudioReading) (w : World) :
  seek t (assign (set_beatmap v) w) = assign (set_beatmap v) (seek t w)
  /\ loop time a (assign (set_beatmap v) w) = assign (set_beatmap v) (loop time a w).
Proof.
  destruct w as [o gm rm st tr]. destruct o. destruct st as [en th de].
  unfold seek, loop, autoSync, detectIssue, disableAutoSync, drifted,
    Settings_set_Enabled.
  split; branches; reflexivity.
Qed.

(** C5, as the code behaves.  Neither [seek] nor the frame loop looks at
    [beatmap].  With no beatmap loaded, [seek(t)] sets the timestamp to [t],
    assigns [t] to the renderer's timestamp and re-seeks the "beatmap" audio
    track; a frame while playing advances the timestamp and assigns it to
    the renderer and to the game instance, and with auto-sync enabled and
    the audio drifted beyond the threshold it re-seeks the "beatmap" track
    as well.  All of it is what happens with a beatmap loaded: in the state
    that differs only by having a beatmap [b] loaded, [seek] and the frame
    make the same calls and end in the same state, [b] still loaded. *)
Theorem seek_and_loop_without_beatmap
    (t time : float) (a : AudioReading) (w : World) :
  beatmap (this w) = None ->
  let ts := (timestamp (this w)
             + (time - lastFrameTimestamp (this w)) * _playbackRate (this w))%float in
  (timestamp (this (seek t w)) = t
   /\ trace (seek t w) = trace w ++ [renderer_set_timestamp t;
                                     audioHandler_seekAudio "beatmap" (t / 1000)%float])
  /\ (if isPaused (this w) then loop time a w = w
      else
        timestamp (this (loop time a w)) = ts
        /\ (forall v0, renderer_timestamp v0 (trace (loop time a w)) = ts)
        /\ (forall v0, gameInstance_time v0 (trace (loop time a w)) = ts)
        /\ (exists mid,
              trace (loop time a w)
              = trace w ++ [renderer_set_timestamp ts; gameInstance_set_time ts]
                        ++ mid ++ [requestAnimationFrame_loop])
        /\ (if AudioAutoSyncEnabled (settings w)
               && drifted (getAudioCurrentTimeMS a - getAudioOffsetMS a - ts)%float
                          (AudioAutoSyncThresholdMS (settings w))
            then In (audioHandler_seekAudio "beatmap" (ts / 1000)%float)
                    (trace (loop time a w))
            else True))
  /\ (forall b,
        let wb := assign (set_beatmap (Some b)) w in
        seek t wb = assign (set_beatmap (Some b)) (seek t w)
        /\ loop time a wb = assign (set_beatmap (Some b)) (loop time a w)
        /\ trace (seek t wb) = trace (seek t w)
        /\ trace (loop time a wb) = trace (loop time a w)
        /\ clock_state (seek t wb) = clock_state (seek t w)
        /\ clock_state (loop time a wb) = clock_state (loop time a w)).
Proof.
  intros _ ts.
  destruct (seek_effect t w) as (S1 & _ & S2).
  split; [split; [exact S1 | exact S2]|].
  apply and_comm. split.
  { intros b wb. subst wb.
    destruct (seek_loop_ignore_beatmap (Some b) t time a w) as (E1 & E2).
    rewrite E1, E2. repeat split. }
  destruct (isPaused (this w)) eqn:Hp.
  { unfold loop. rewrite Hp. reflexivity. }
  destruct (loop_playing time a w Hp) as (L1 & _ & _ & _ & mid & Lt & _).
  fold ts in L1, Lt.
  split; [exact L1|].
  split; [intro v0; apply (loop_playing_pushes time a w Hp v0)|].
  split; [intro v0; apply (loop_playing_pushes time a w Hp v0)|].
  split; [exists mid; exact Lt|].
  subst ts. clear - Hp.
  destruct w as [o gm rm st tr]. destruct o. cbn in Hp. subst.
  unfold loop, autoSync, detectIssue, disableAutoSync, drifted, Settings_set_Enabled.
  branches; try exact I; try discriminate;
    rewrite ?in_app_iff; cbn; tauto.
Qed.

Lemma seek_and_loop_without_beatmap_witness :
  beatmap (this Scenario.playing) = None
  /\ timestamp (this (seek 5%float Scenario.playing)) = 5%float
  /\ gameInstance_time 0%float (trace (loop 2016%float Scenario.ahead Scenario.playing))
     = 16%float
  /\ In (audioHandler_seekAudio "beatmap" (16 / 1000)%float)
        (trace (loop 2016%float Scenario.ahead Scenario.playing)).
Proof.
  assert (Hb : beatmap (this Scenario.playing) = None) by reflexivity.
  pose proof (seek_and_loop_without_beatmap 5%float 2016%float Scenario.ahead
                Scenario.playing Hb) as H.
  split; [exact Hb|].
  cbv zeta in H. destruct H as (HS & HL & _).
  vm_compute in HS, HL |- *.
  destruct HS as (S1 & _). destruct HL as (_ & _ & L4 & _ & LIn).
  split; [exact S1|]. split; [exact (L4 0%float) | exact LIn].
Defined.

(** C5, as stated, fails on a freshly constructed object, on which no
    beatmap was ever loaded: [seek(5)] assigns the renderer's timestamp and
    re-seeks the "beatmap" audio track, and a frame after [play()] assigns
    both the renderer's timestamp and the game instance's time. *)
Lemma seek_and_loop_push_without_beatmap :
  beatmap (this Scenario.fresh) = None
  /\ trace (seek 5%float Scenario.fresh)
     = [renderer_set_timestamp 5%float;
        audioHandler_seekAudio "beatmap" (5 / 1000)%float]
  /\ beatmap (this Scenario.playing) = None
  /\ trace (loop 2016%float Scenario.stuck Scenario.playing)
     = trace Scenario.playing
       ++ [renderer_set_timestamp 16%float; gameInstance_set_time 16%float;
           requestAnimationFrame_loop].
Proof.
  vm_compute. repeat split.
Qed.

(** ** The drift corrector *)

(** C6, as the code behaves.  In a frame that re-seeks the audio with issue
    detection enabled, the counter is incremented first and the window test
    comes second: when the test finds the new timestamp more than 1000 past
    the recorded last-correction time, the counter is zeroed, so it is 0 and
    not 1 after the frame, and the frame's time is recorded as the
    last-correction time. *)
Theorem detectIssue_window_passed (time : float) (a : AudioReading) (w : World) :
  isPaused (this w) = false ->
  AudioAutoSyncEnabled (settings w) = true ->
  AudioAutoSyncDetectIssue (settings w) = true ->
  let ts := (timestamp (this w)
             + (time - lastFrameTimestamp (this w)) * _playbackRate (this w))%float in
  drifted (getAudioCurrentTimeMS a - getAudioOffsetMS a - ts)%float
          (AudioAutoSyncThresholdMS (settings w)) = true ->
  (1000 <? ts - _autoSyncLastTime (this w))%float = true ->
  let w' := loop time a w in
  In (audioHandler_seekAudio "beatmap" (ts / 1000)%float) (trace w')
  /\ _autoSyncCount (this w') = 0
  /\ _autoSyncLastTime (this w') = time
  /\ settings w' = settings w.
Proof.
  intros Hp He Hd ts Hdr Hwin. subst ts.
  destruct w as [o gm rm st tr]. destruct o. cbn in Hp, He, Hd, Hdr, Hwin. subst.
  unfold loop, autoSync, detectIssue, disableAutoSync, Settings_set_Enabled. cbn.
  rewrite He, Hdr. cbn. rewrite Hd. cbn. rewrite Hwin. cbn.
  repeat split. rewrite !in_app_iff. cbn. tauto.
Qed.

Lemma detectIssue_window_passed_witness :
  _autoSyncCount (this Scenario.corrected_once) = 1
  /\ _autoSyncCount (this (loop 6000%float Scenario.stuck Scenario.corrected_once)) = 0
  /\ _autoSyncLastTime (this (loop 6000%float Scenario.stuck Scenario.corrected_once))
     = 6000%float.
Proof.
  split; [reflexivity|].
  assert (Hp : isPaused (this Scenario.corrected_once) = false) by reflexivity.
  assert (He : AudioAutoSyncEnabled (settings Scenario.corrected_once) = true)
    by reflexivity.
  assert (Hd : AudioAutoSyncDetectIssue (settings Scenario.corrected_once) = true)
    by reflexivity.
  pose proof (detectIssue_window_passed 6000%float Scenario.stuck
                Scenario.corrected_once Hp He Hd) as H.
  cbv zeta in H.
  destruct (H ltac:(vm_compute; reflexivity) ltac:(vm_compute; reflexivity))
    as (_ & H1 & H2 & _).
  split; [exact H1 | exact H2].
Defined.

(** C6, as stated, fails.  A correction was counted in the frame at 2016;
    the next one happens in the frame at 6000, more than 1000 ms later on
    the frame clock and on the timeline alike.  The counter is 0 after that
    frame, not 1. *)
Lemma counter_is_zero_after_window :
  let w := Scenario.corrected_once in
  let w' := loop 6000%float Scenario.stuck w in
  isPaused (this w) = false
  /\ AudioAutoSyncEnabled (settings w) = true
  /\ AudioAutoSyncDetectIssue (settings w) = true
  /\ _autoSyncCount (this w) = 1
  /\ _autoSyncLastTime (this w) = 2016%float
  /\ timestamp (this w) = 16%float
  /\ count_seekAudio (trace w') = S (count_seekAudio (trace w))
  /\ timestamp (this w') = 4000%float
  /\ (1000 <? 6000 - _autoSyncLastTime (this w))%float = true
  /\ (1000 <? timestamp (this w') - timestamp (this w))%float = true
  /\ _autoSyncLastTime (this w') = 6000%float
  /\ _autoSyncCount (this w') = 0
  /\ _autoSyncCount (this w') <> 1.
Proof.
  vm_compute. repeat split. discriminate.
Qed.

(** The detector does fire when the timeline is behind the frame clock:
    from a timestamp of 0 the same frames end with auto-sync written to
    false once and one warning. *)
Lemma autoSync_issue_detected_near_zero :
  let w' := frames Scenario.burst Scenario.playing in
  AudioAutoSyncEnabled (settings w') = false
  /\ count_Settings_set (trace w') = 1%nat
  /\ count_warn (trace w') = 1%nat
  /\ _autoSyncCount (this w') = 0.
Proof.
  vm_compute. repeat split.
Qed.

(** C7, as the code behaves.  The timeline is at 100000 while the frame
    clock is near 5000.  Each of twenty consecutive frames, all within
    304 ms, re-seeks the audio with issue detection enabled; the window test
    compares the timeline against the frame time stored by the previous
    correction, passes every time and zeroes the counter, so auto-sync is
    never disabled and no warning is printed. *)
Theorem autoSync_issue_undetected_far_ahead :
  let w := Scenario.far_ahead in
  let w' := frames Scenario.burst w in
  AudioAutoSyncEnabled (settings w) = true
  /\ AudioAutoSyncDetectIssue (settings w) = true
  /\ List.length Scenario.burst = 20%nat
  /\ forallb (fun f => (5016 <=? fst f)%float && (fst f <=? 5320)%float) Scenario.burst = true
  /\ count_seekAudio (trace w') = (count_seekAudio (trace w) + 20)%nat
  /\ AudioAutoSyncEnabled (settings w') = true
  /\ count_Settings_set (trace w') = 0%nat
  /\ count_warn (trace w') = 0%nat
  /\ _autoSyncCount (this w') = 0.
Proof.
  vm_compute. repeat split.
Qed.

(** * Invariants over call sequences *)

Lemma neqb_true (a b : Z) : neqb a b = true -> a <> b.
Proof.
  unfold neqb. intros H E. apply Z.eqb_eq in E. rewrite E in H. discriminate H.
Qed.

(** case analysis on the tests that occur in the hypotheses as well *)
Ltac branches_hyps :=
  repeat (branches;
          match goal with
          | H : context [match ?c with _ => _ end] |- _ =>
              lazymatch c with
              | context [match _ with _ => _ end] => fail
              | _ => destruct c eqn:?
              end
          end);
  branches.

(** from boolean tests to equations *)
Ltac tests_to_props :=
  repeat match goal with
         | H : (_ && _) = true |- _ => apply andb_prop in H; destruct H
         | H : Z.eqb _ _ = true |- _ => apply Z.eqb_eq in H
         | H : Z.eqb _ _ = false |- _ => apply Z.eqb_neq in H
         | H : Z.ltb _ _ = true |- _ => apply Z.ltb_lt in H
         | H : Z.ltb _ _ = false |- _ => apply Z.ltb_ge in H
         | H : neqb _ _ = false |- _ => apply neqb_false in H
         | H : neqb _ _ = true |- _ => apply neqb_true in H
         | H : Nat.eqb _ _ = true |- _ => apply Nat.eqb_eq in H
         | |- (_ && _) = true => apply andb_true_intro; split
         | |- Z.eqb _ _ = true => apply Z.eqb_eq
         end.

Lemma call_mods_consistent (u : Mods) (c : Call) (w : World) :
  mods_consistent w = true -> mods_consistent (call u c w) = true.
Proof.
  destruct w as [o gm rm st tr]. destruct o.
  unfold mods_consistent, replay_captured, override_applied, beatmap_follows_replay.
  intro H.
  destruct c; unfold call, loadBeatmap, loadReplay, enableModsOverride,
    disableModsOverride, same_as_override, play, pause, seek, set_playbackRate,
    loop, autoSync, detectIssue, disableAutoSync, drifted, Settings_set_Enabled;
    branches_hyps; tests_to_props; subst; rewrite ?Nat.eqb_refl;
    try discriminate; try reflexivity; try congruence.
Qed.

Lemma calls_mods_consistent (u : Mods) (cs : list Call) (w : World) :
  mods_consistent w = true -> mods_consistent (calls u cs w) = true.
Proof.
  revert w. induction cs as [|c cs IH]; intros w H; cbn [calls].
  - exact H.
  - apply IH. apply call_mods_consistent. exact H.
Qed.

(** X1.  On an object driven by any sequence of calls since its
    construction: while an override is active the loaded replay and the
    loaded beatmap carry the override's identity, and whenever a beatmap and
    a replay are both loaded their mods identities are equal. *)
Theorem mods_agree_after_any_calls
    (u : Mods) (cs : list Call) (bm : BeatmapRef -> Mods) (rp : ReplayRef -> Mods)
    (st : Settings) :
  let w := calls u cs (new_ReplayTale bm rp st) in
  (forall m r, mods (this w) = Some m -> replay (this w) = Some r ->
               numeric (Replay_mods w r) = numeric m)
  /\ (forall m b, mods (this w) = Some m -> beatmap (this w) = Some b ->
                  numeric (Beatmap_getMods w b) = numeric m)
  /\ (forall b r, beatmap (this w) = Some b -> replay (this w) = Some r ->
                  numeric (Beatmap_getMods w b) = numeric (Replay_mods w r)).
Proof.
  intro w.
  assert (H : mods_consistent w = true)
    by (apply calls_mods_consistent; reflexivity).
  unfold mods_consistent, override_applied, beatmap_follows_replay in H.
  apply andb_prop in H. destruct H as [H Hf]. apply andb_prop in H.
  destruct H as [_ Ho].
  split; [|split].
  - intros m r Hm Hr. rewrite Hm, Hr in Ho. apply andb_prop in Ho.
    destruct Ho as [Ho _]. apply Z.eqb_eq. exact Ho.
  - intros m b Hm Hb. rewrite Hm, Hb in Ho. apply andb_prop in Ho.
    destruct Ho as [_ Ho]. apply Z.eqb_eq. exact Ho.
  - intros b r Hb Hr. rewrite Hb, Hr in Hf. apply Z.eqb_eq. exact Hf.
Qed.

(** X2.  On an object driven by any sequence of calls since its
    construction, [_replayModsNumeric] is never [null]: it is [undefined]
    as long as no replay is loaded and a number afterwards.  The test of
    line 120 therefore never succeeds, and [disableModsOverride] always
    replaces the mods of a loaded beatmap. *)
Theorem replayModsNumeric_never_null
    (u : Mods) (cs : list Call) (bm : BeatmapRef -> Mods) (rp : ReplayRef -> Mods)
    (st : Settings) :
  let w := calls u cs (new_ReplayTale bm rp st) in
  is_null (_replayModsNumeric (this w)) = false
  /\ match replay (this w) with
     | Some _ => exists n, _replayModsNumeric (this w) = js_number n
     | None => _replayModsNumeric (this w) = js_undefined
     end
  /\ match beatmap (this w) with
     | Some b => Beatmap_getMods (disableModsOverride u w) b
                 = Mods_of u (_replayModsNumeric (this w))
     | None => True
     end.
Proof.
  intro w.
  assert (H : mods_consistent w = true)
    by (apply calls_mods_consistent; reflexivity).
  clearbody w. unfold mods_consistent in H.
  apply andb_prop in H. destruct H as [H _]. apply andb_prop in H.
  destruct H as [Hc _]. unfold replay_captured in Hc.
  destruct w as [o gm rm st' tr]. destruct o as [b r ov rn md ps ts rate cnt lt lf].
  cbn in Hc |- *.
  destruct r; destruct rn; try discriminate Hc;
    (split; [reflexivity|]); (split; [eauto|]);
    (destruct b; [|exact I]);
    unfold disableModsOverride; branches; rewrite ?Nat.eqb_refl; reflexivity.
Qed.

Lemma call_autoSyncCount_bounded (u : Mods) (c : Call) (w : World) :
  0 <= _autoSyncCount (this w) <= 10 ->
  0 <= _autoSyncCount (this (call u c w)) <= 10.
Proof.
  destruct w as [o gm rm st tr]. destruct o. cbn. intro H.
  destruct c; unfold call, loadBeatmap, loadReplay, enableModsOverride,
    disableModsOverride, same_as_override, play, pause, seek, set_playbackRate,
    loop, autoSync, detectIssue, disableAutoSync, drifted, Settings_set_Enabled;
    branches; tests_to_props; lia.
Qed.

(** X3.  On an object driven by any sequence of calls since its
    construction, the correction counter is between 0 and 10 whenever a call
    has returned: a frame that raises it to 11 zeroes it before returning. *)
Theorem autoSyncCount_bounded
    (u : Mods) (cs : list Call) (bm : BeatmapRef -> Mods) (rp : ReplayRef -> Mods)
    (st : Settings) :
  0 <= _autoSyncCount (this (calls u cs (new_ReplayTale bm rp st))) <= 10.
Proof.
  assert (G : forall w, 0 <= _autoSyncCount (this w) <= 10 ->
                        0 <= _autoSyncCount (this (calls u cs w)) <= 10).
  { induction cs as [|c cs IH]; intros w H; cbn [calls].
    - exact H.
    - apply IH. apply call_autoSyncCount_bounded. exact H. }
  apply G. cbn. lia.
Qed.

(** * The drift corrector over several frames *)

(** the counting functions distribute over the log *)
Ltac count_events :=
  unfold count_seekAudio, count_warn, count_Settings_set,
    count_requestAnimationFrame, count_renderer_loadBeatmap in *;
  rewrite ?filter_app, ?length_app in *; cbn in *.

Lemma call_detector_idle (u : Mods) (c : Call) (w : World) :
  AudioAutoSyncEnabled (settings w) && AudioAutoSyncDetectIssue (settings w) = false ->
  _autoSyncCount (this w) <= 10 ->
  settings (call u c w) = settings w
  /\ _autoSyncCount (this (call u c w)) = _autoSyncCount (this w)
  /\ _autoSyncLastTime (this (call u c w)) = _autoSyncLastTime (this w)
  /\ count_warn (trace (call u c w)) = count_warn (trace w)
  /\ count_Settings_set (trace (call u c w)) = count_Settings_set (trace w).
Proof.
  destruct w as [o gm rm st tr]. destruct o. destruct st as [en th de].
  cbn. intros Hoff Hc.
  destruct c; unfold call, loadBeatmap, loadReplay, enableModsOverride,
    disableModsOverride, same_as_override, play, pause, seek, set_playbackRate,
    loop, autoSync, detectIssue, disableAutoSync, drifted, Settings_set_Enabled;
    branches; tests_to_props; try discriminate; try lia;
    count_events; repeat split; lia.
Qed.

(** X4.  Unless auto-sync and issue detection are both enabled, no sequence
    of calls changes the settings, the correction counter or the
    last-correction time, and none prints the warning: with auto-sync
    disabled it stays disabled, and with issue detection off auto-sync is
    never disabled, however often the audio is re-seeked. *)
Theorem detector_idle_unless_enabled (u : Mods) (cs : list Call) (w : World) :
  AudioAutoSyncEnabled (settings w) && AudioAutoSyncDetectIssue (settings w) = false ->
  _autoSyncCount (this w) <= 10 ->
  settings (calls u cs w) = settings w
  /\ _autoSyncCount (this (calls u cs w)) = _autoSyncCount (this w)
  /\ _autoSyncLastTime (this (calls u cs w)) = _autoSyncLastTime (this w)
  /\ count_warn (trace (calls u cs w)) = count_warn (trace w)
  /\ count_Settings_set (trace (calls u cs w)) = count_Settings_set (trace w).
Proof.
  revert w. induction cs as [|c cs IH]; intros w Hoff Hc; cbn [calls].
  - repeat split; reflexivity.
  - destruct (call_detector_idle u c w Hoff Hc) as (E1 & E2 & E3 & E4 & E5).
    assert (Hoff' : AudioAutoSyncEnabled (settings (call u c w))
                    && AudioAutoSyncDetectIssue (settings (call u c w)) = false)
      by (rewrite E1; exact Hoff).
    assert (Hc' : _autoSyncCount (this (call u c w)) <= 10)
      by (rewrite E2; exact Hc).
    destruct (IH (call u c w) Hoff' Hc') as (F1 & F2 & F3 & F4 & F5).
    rewrite F1, F2, F3, F4, F5. auto.
Qed.

Lemma detector_idle_unless_enabled_witness :
  AudioAutoSyncEnabled
    (settings (calls (new_Mods 0)
                 [call_seek 100000%float; call_loop 5400%float Scenario.stuck;
                  call_pause; call_play 6000%float Scenario.stuck]
                 (frames Scenario.burst Scenario.playing))) = false.
Proof.
  pose proof (detector_idle_unless_enabled (new_Mods 0)
                [call_seek 100000%float; call_loop 5400%float Scenario.stuck;
                 call_pause; call_play 6000%float Scenario.stuck]
                (frames Scenario.burst Scenario.playing)
                ltac:(vm_compute; reflexivity) ltac:(vm_compute; discriminate))
    as (H & _).
  rewrite H. vm_compute. reflexivity.
Defined.



(** a counted frame: the counter goes up by one, and the frame that takes it
    past 10 warns, writes the setting and zeroes it *)
Lemma loop_counted (time : float) (a : AudioReading) (w : World) :
  counted time a w = true ->
  0 <= _autoSyncCount (this w) <= 10 ->
  let w' := loop time a w in
  count_seekAudio (trace w') = S (count_seekAudio (trace w))
  /\ if _autoSyncCount (this w) <? 10
     then _autoSyncCount (this w') = _autoSyncCount (this w) + 1
          /\ settings w' = settings w
          /\ count_warn (trace w') = count_warn (trace w)
          /\ count_Settings_set (trace w') = count_Settings_set (trace w)
     else _autoSyncCount (this w') = 0
          /\ AudioAutoSyncEnabled (settings w') = false
          /\ count_warn (trace w') = S (count_warn (trace w))
          /\ count_Settings_set (trace w') = S (count_Settings_set (trace w)).
Proof.
  destruct w as [o gm rm st tr]. destruct o. destruct st as [en th de].
  unfold counted. cbn. intros Hq Hc.
  unfold loop, autoSync, detectIssue, disableAutoSync, drifted, Settings_set_Enabled in *.
  branches; tests_to_props; try discriminate; try lia;
    count_events; repeat split; lia.
Qed.

Lemma all_counted_disabled (fs : list (float * AudioReading)) (w : World) :
  AudioAutoSyncEnabled (settings w) = false -> all_counted fs w = true -> fs = [].
Proof.
  intros He H. destruct fs as [|[time a] fs]; [reflexivity|].
  cbn [all_counted] in H. unfold counted in H. rewrite He in H.
  rewrite andb_false_r in H. discriminate H.
Qed.

(** X6.  Consecutive frames that each re-seek the audio and count (auto-sync
    and issue detection enabled, drift beyond the threshold, window test not
    passed) raise the counter by one each while it stays at most 10, without
    touching the settings.  The frame that takes the counter to 11 prints
    the warning once, writes [AudioAutoSyncEnabled = false] once and zeroes
    the counter, and no counted frame can follow it. *)
Theorem counted_frames_disable_at_eleven
    (fs : list (float * AudioReading)) (w : World) :
  all_counted fs w = true ->
  0 <= _autoSyncCount (this w) <= 10 ->
  let w' := frames fs w in
  let n := Z.of_nat (List.length fs) in
  count_seekAudio (trace w') = (count_seekAudio (trace w) + List.length fs)%nat
  /\ if _autoSyncCount (this w) + n <=? 10
     then _autoSyncCount (this w') = _autoSyncCount (this w) + n
          /\ settings w' = settings w
          /\ count_warn (trace w') = count_warn (trace w)
          /\ count_Settings_set (trace w') = count_Settings_set (trace w)
     else _autoSyncCount (this w) + n = 11
          /\ _autoSyncCount (this w') = 0
          /\ AudioAutoSyncEnabled (settings w') = false
          /\ count_warn (trace w') = S (count_warn (trace w))
          /\ count_Settings_set (trace w') = S (count_Settings_set (trace w)).
Proof.
  revert w. induction fs as [|[time a] fs IH]; intros w Hall Hc; cbv zeta.
  - cbn [frames List.length Z.of_nat]. rewrite Z.add_0_r, Nat.add_0_r.
    destruct (Z.leb_spec (_autoSyncCount (this w)) 10); [auto | lia].
  - cbn [all_counted] in Hall. apply andb_prop in Hall. destruct Hall as [H1 Hrest].
    pose proof (loop_counted time a w H1 Hc) as (Hs & Hstep). cbv zeta in Hs, Hstep.
    cbn [frames]. change (List.length ((time, a) :: fs)) with (S (List.length fs)).
    rewrite Nat2Z.inj_succ.
    destruct (Z.ltb_spec (_autoSyncCount (this w)) 10) as [Hlt|Hge].
    + destruct Hstep as (S1 & S2 & S3 & S4).
      assert (Hc' : 0 <= _autoSyncCount (this (loop time a w)) <= 10) by lia.
      specialize (IH (loop time a w) Hrest Hc'). cbv zeta in IH.
      destruct IH as (I0 & I1). rewrite S1 in I1. rewrite I0, Hs.
      split; [lia|].
      replace (_autoSyncCount (this w) + Z.succ (Z.of_nat (List.length fs)))
        with (_autoSyncCount (this w) + 1 + Z.of_nat (List.length fs)) by lia.
      destruct (_autoSyncCount (this w) + 1 + Z.of_nat (List.length fs) <=? 10).
      * destruct I1 as (J1 & J2 & J3 & J4). rewrite J1, J2, J3, J4. auto.
      * destruct I1 as (J1 & J2 & J3 & J4 & J5). rewrite J4, J5, S3, S4. auto.
    + destruct Hstep as (S1 & S2 & S3 & S4).
      pose proof (all_counted_disabled fs (loop time a w) S2 Hrest) as Hnil.
      subst fs. cbn [frames List.length Z.of_nat]. rewrite Hs.
      split; [lia|].
      destruct (Z.leb_spec (_autoSyncCount (this w) + Z.succ 0) 10); [lia|].
      repeat split; try assumption; lia.
Qed.

Lemma counted_frames_disable_at_eleven_witness :
  all_counted (Scenario.every 11 2016%float 16%float Scenario.ahead) Scenario.playing
  = true
  /\ AudioAutoSyncEnabled
       (settings (frames (Scenario.every 11 2016%float 16%float Scenario.ahead)
                    Scenario.playing)) = false
  /\ count_warn (trace (frames (Scenario.every 11 2016%float 16%float Scenario.ahead)
                          Scenario.playing)) = 1%nat.
Proof.
  assert (Ha : all_counted (Scenario.every 11 2016%float 16%float Scenario.ahead)
                 Scenario.playing = true) by (vm_compute; reflexivity).
  assert (Hc : 0 <= _autoSyncCount (this Scenario.playing) <= 10)
    by (vm_compute; split; discriminate).
  pose proof (counted_frames_disable_at_eleven _ _ Ha Hc) as H.
  cbv zeta in H. destruct H as (_ & H).
  change (_autoSyncCount (this Scenario.playing)
          + Z.of_nat (List.length (Scenario.every 11 2016%float 16%float Scenario.ahead))
          <=? 10) with false in H.
  destruct H as (_ & _ & H2 & H3 & _).
  split; [exact Ha|]. split; [exact H2|]. rewrite H3. vm_compute. reflexivity.
Defined.

(** * How the methods compose *)

(** X7.  [play()] unpauses, stores [now] as the time of the last frame,
    starts the audio and seeks it to the timeline position, and then runs a
    frame itself.  It does so in every state: called on an object that is
    already playing it requests one more animation frame. *)
Theorem play_requests_a_frame (now : float) (a : AudioReading) (w : World) :
  let w' := play now a w in
  let ts := (timestamp (this w) + (now - now) * _playbackRate (this w))%float in
  isPaused (this w') = false
  /\ lastFrameTimestamp (this w') = now
  /\ timestamp (this w') = ts
  /\ (exists rest,
        trace w' = trace w ++ [audioHandler_playAudio "beatmap";
                               audioHandler_seekAudio "beatmap"
                                 (timestamp (this w) / 1000)%float;
                               renderer_set_timestamp ts;
                               gameInstance_set_time ts] ++ rest)
  /\ count_requestAnimationFrame (trace w')
     = S (count_requestAnimationFrame (trace w)).
Proof.
  destruct w as [o gm rm st tr]. destruct o. destruct st as [en th de].
  unfold play, loop, autoSync, detectIssue, disableAutoSync, drifted,
    Settings_set_Enabled.
  branches; (split; [reflexivity|]); (split; [reflexivity|]);
    (split; [reflexivity|]);
    (split;
     [ first [ eexists [_]; rewrite <- ?app_assoc; cbn; reflexivity
             | eexists [_; _]; rewrite <- ?app_assoc; cbn; reflexivity
             | eexists [_; _; _]; rewrite <- ?app_assoc; cbn; reflexivity
             | eexists [_; _; _; _]; rewrite <- ?app_assoc; cbn; reflexivity ]
     | count_events; lia ]).
Qed.

(** X8.  [pause()] keeps the timestamp and tells the audio to pause; the
    frames that arrive afterwards change nothing and request no further
    frame.  The same holds for an object on which [play()] was never
    called. *)
Theorem pause_freezes (fs : list (float * AudioReading)) (w : World)
    (bm : BeatmapRef -> Mods) (rp : ReplayRef -> Mods) (st : Settings) :
  timestamp (this (pause w)) = timestamp (this w)
  /\ trace (pause w) = trace w ++ [audioHandler_pauseAudio "beatmap"]
  /\ frames fs (pause w) = pause w
  /\ frames fs (new_ReplayTale bm rp st) = new_ReplayTale bm rp st.
Proof.
  split; [reflexivity|]. split; [reflexivity|].
  split; apply frames_paused; reflexivity.
Qed.

(** X9.  The mods methods never touch the clock, the counter or the
    settings, and the clock methods never touch the override, the loaded
    objects or the mods of any beatmap or replay. *)
Theorem mods_and_clock_separate (u : Mods) (c : Call) (w : World) :
  match c with
  | call_loadBeatmap _ | call_loadReplay _
  | call_enableModsOverride _ | call_disableModsOverride =>
      clock_state (call u c w) = clock_state w
  | call_play _ _ | call_pause | call_seek _
  | call_set_playbackRate _ | call_loop _ _ =>
      mods_state (call u c w) = mods_state w
  end.
Proof.
  destruct w as [o gm rm st tr]. destruct o. destruct st as [en th de].
  destruct c; unfold call, clock_state, mods_state, loadBeatmap, loadReplay,
    enableModsOverride, disableModsOverride, same_as_override, play, pause, seek,
    set_playbackRate, loop, autoSync, detectIssue, disableAutoSync, drifted,
    Settings_set_Enabled;
    branches; reflexivity.
Qed.

(** X10.  [loadReplay] with no override active and a beatmap loaded whose
    mods identity differs from the replay's gives the beatmap the replay's
    identity, but the only calls it makes are [gameInstance.loadReplay] and
    [renderer.loadReplay]: the renderer is not asked to reload the beatmap
    whose mods have just changed. *)
Theorem loadReplay_changes_beatmap_mods_silently
    (r : ReplayRef) (b : BeatmapRef) (w : World) :
  mods (this w) = None ->
  beatmap (this w) = Some b ->
  numeric (Beatmap_getMods w b) <> numeric (Replay_mods w r) ->
  let w' := loadReplay r w in
  numeric (Beatmap_getMods w' b) = numeric (Replay_mods w r)
  /\ numeric (Beatmap_getMods w' b) <> numeric (Beatmap_getMods w b)
  /\ trace w' = trace w ++ [gameInstance_loadReplay r; renderer_loadReplay r]
  /\ count_renderer_loadBeatmap (trace w') = count_renderer_loadBeatmap (trace w).
Proof.
  intros Hm Hb Hd. destruct w as [o gm rm st tr]. destruct o.
  cbn in Hm, Hb, Hd. subst. unfold loadReplay.
  branches; tests_to_props; rewrite ?Nat.eqb_refl; try contradiction;
    (split; [reflexivity|]); (split; [congruence|]);
    rewrite <- ?app_assoc; (split; [reflexivity|]);
    count_events; lia.
Qed.

Lemma loadReplay_changes_beatmap_mods_silently_witness :
  numeric (Beatmap_getMods (loadBeatmap 0%nat Scenario.fresh) 0%nat) = 0
  /\ numeric (Beatmap_getMods (loadReplay 0%nat (loadBeatmap 0%nat Scenario.fresh)) 0%nat)
     = 8
  /\ count_renderer_loadBeatmap
       (trace (loadReplay 0%nat (loadBeatmap 0%nat Scenario.fresh))) = 1%nat.
Proof.
  pose proof (loadReplay_changes_beatmap_mods_silently 0%nat 0%nat
                (loadBeatmap 0%nat Scenario.fresh)
                ltac:(reflexivity) ltac:(reflexivity)
                ltac:(vm_compute; discriminate)) as H.
  cbv zeta in H. destruct H as (H1 & _ & _ & H4).
  split; [reflexivity|]. split; [rewrite H1; reflexivity|].
  rewrite H4. reflexivity.
Defined.

(** X11.  The two override methods ask the renderer to reload the loaded
    beatmap exactly when the call has changed that beatmap's mods identity,
    and then once.  Besides reading and writing the mods of the loaded
    beatmap and replay they give no other command: nothing goes to the game
    instance, the audio handler, the console, the settings or the frame
    scheduler, and no beatmap or replay other than the loaded ones is
    written. *)
Theorem override_reloads_iff_identity_changes (u m : Mods) (w : World) :
  trace (enableModsOverride m w)
  = trace w ++ reload_if_changed w (enableModsOverride m w)
  /\ trace (disableModsOverride u w)
     = trace w ++ reload_if_changed w (disableModsOverride u w)
  /\ (forall b', beatmap (this w) <> Some b' ->
                 Beatmap_getMods (enableModsOverride m w) b' = Beatmap_getMods w b'
                 /\ Beatmap_getMods (disableModsOverride u w) b' = Beatmap_getMods w b')
  /\ (forall r', replay (this w) <> Some r' ->
                 Replay_mods (enableModsOverride m w) r' = Replay_mods w r'
                 /\ Replay_mods (disableModsOverride u w) r' = Replay_mods w r')
  /\ settings (enableModsOverride m w) = settings w
  /\ settings (disableModsOverride u w) = settings w.
Proof.
  destruct w as [o gm rm st tr]. destruct o.
  unfold reload_if_changed, enableModsOverride, disableModsOverride, same_as_override.
  split; [|split; [|split; [|split; [|split]]]].
  - branches_hyps; rewrite ?Nat.eqb_refl in *; tests_to_props;
      rewrite ?app_nil_r; try reflexivity; congruence.
  - branches_hyps; rewrite ?Nat.eqb_refl in *; tests_to_props;
      rewrite ?app_nil_r; try reflexivity; congruence.
  - intros b' Hb'. split; branches; tests_to_props; subst;
      try reflexivity; exfalso; apply Hb'; reflexivity.
  - intros r' Hr'. split; branches; tests_to_props; subst;
      try reflexivity; exfalso; apply Hr'; reflexivity.
  - branches; reflexivity.
  - branches; reflexivity.
Qed.

(** X12.  Neither [seek] nor the setter of [playbackRate] touches the time
    of the last frame.  The first frame after a seek to [t] therefore puts
    the timeline at [t] plus the whole time since the frame before the seek,
    and the first frame after a rate change scales the whole time since the
    frame before the change by the new rate; the rate change itself leaves
    the timeline where it is and passes the rate on to the audio. *)
Theorem frame_after_seek_or_rate_change
    (t value time : float) (a : AudioReading) (w : World) :
  isPaused (this w) = false ->
  timestamp (this (loop time a (seek t w)))
  = (t + (time - lastFrameTimestamp (this w)) * _playbackRate (this w))%float
  /\ timestamp (this (loop time a (set_playbackRate value w)))
     = (timestamp (this w) + (time - lastFrameTimestamp (this w)) * value)%float
  /\ timestamp (this (set_playbackRate value w)) = timestamp (this w)
  /\ trace (set_playbackRate value w)
     = trace w ++ [audioHandler_setAudioOptions_playbackRate "beatmap" value].
Proof.
  intro Hp.
  assert (H1 : isPaused (this (seek t w)) = false) by exact Hp.
  assert (H2 : isPaused (this (set_playbackRate value w)) = false) by exact Hp.
  destruct (loop_playing time a _ H1) as (L1 & _).
  destruct (loop_playing time a _ H2) as (L2 & _).
  split; [exact L1|]. split; [exact L2|]. split; reflexivity.
Qed.

Lemma frame_after_seek_or_rate_change_witness :
  timestamp (this (loop 2016%float Scenario.stuck (seek 500%float Scenario.playing)))
  = 516%float
  /\ timestamp (this (loop 2016%float Scenario.stuck
                        (set_playbackRate 2%float Scenario.playing)))
     = 32%float.
Proof.
  pose proof (frame_after_seek_or_rate_change 500%float 2%float 2016%float
                Scenario.stuck Scenario.playing ltac:(reflexivity))
    as (H1 & H2 & _).
  split; [rewrite H1 | rewrite H2]; vm_compute; reflexivity.
Defined.


Lemma enableModsOverride_sets_override (m : Mods) (w : World) :
  exists m', mods (this (enableModsOverride m w)) = Some m' /\ numeric m' = numeric m.
Proof.
  destruct w as [o gm rm st tr]. destruct o.
  unfold enableModsOverride, same_as_override.
  branches; tests_to_props; eauto.
Qed.

(** X14.  On an object driven by any sequence of calls since its
    construction, [enableModsOverride(m)] leaves an override with the
    identity of [m] active, and the loaded replay and the loaded beatmap
    both carry that identity, also when the call returns early because an
    override with the same identity was already active. *)
Theorem enableModsOverride_applies_to_loaded
    (u m : Mods) (cs : list Call) (bm : BeatmapRef -> Mods) (rp : ReplayRef -> Mods)
    (st : Settings) :
  let w := enableModsOverride m (calls u cs (new_ReplayTale bm rp st)) in
  (exists m', mods (this w) = Some m' /\ numeric m' = numeric m)
  /\ match replay (this w) with
     | Some r => numeric (Replay_mods w r) = numeric m
     | None => True
     end
  /\ match beatmap (this w) with
     | Some b => numeric (Beatmap_getMods w b) = numeric m
     | None => True
     end.
Proof.
  intro w.
  assert (H : mods_consistent w = true).
  { apply (call_mods_consistent u (call_enableModsOverride m)).
    apply calls_mods_consistent. reflexivity. }
  destruct (enableModsOverride_sets_override m (calls u cs (new_ReplayTale bm rp st)))
    as (m' & Hm & Hn).
  fold w in Hm. clearbody w.
  unfold mods_consistent, override_applied in H.
  apply andb_prop in H. destruct H as [H _]. apply andb_prop in H.
  destruct H as [_ Ho]. rewrite Hm in Ho. apply andb_prop in Ho.
  destruct Ho as [Hr Hb].
  split; [exists m'; auto|]. split.
  - destruct (replay (this w)); [|exact I]. apply Z.eqb_eq in Hr. congruence.
  - destruct (beatmap (this w)); [|exact I]. apply Z.eqb_eq in Hb. congruence.
Qed.

(** X15.  [loadReplay] reads the identity it captures from the object it is
    given.  Loading the same replay object a second time while an override
    is active therefore captures the override's identity, the first load
    having replaced the object's mods: a later [disableModsOverride] gives
    the replay the override's identity, not the one it first came with. *)
Theorem loadReplay_twice_captures_override
    (u m : Mods) (r : ReplayRef) (w : World) :
  mods (this w) = Some m ->
  let w1 := loadReplay r w in
  let w2 := loadReplay r w1 in
  _replayModsNumeric (this w1) = js_number (numeric (Replay_mods w r))
  /\ _replayModsNumeric (this w2) = js_number (numeric m)
  /\ numeric (Replay_mods (disableModsOverride u w1) r) = numeric (Replay_mods w r)
  /\ numeric (Replay_mods (disableModsOverride u w2) r) = numeric m.
Proof.
  intro Hm. destruct w as [o gm rm st tr]. destruct o. cbn in Hm. subst.
  unfold loadReplay, disableModsOverride.
  repeat split; branches; rewrite ?Nat.eqb_refl; reflexivity.
Qed.

Lemma loadReplay_twice_captures_override_witness :
  let w := enableModsOverride (new_Mods 16) Scenario.fresh in
  numeric (Replay_mods w 0%nat) = 8
  /\ numeric (Replay_mods (disableModsOverride (new_Mods 0) (loadReplay 0%nat w)) 0%nat)
     = 8
  /\ numeric (Replay_mods
                (disableModsOverride (new_Mods 0) (loadReplay 0%nat (loadReplay 0%nat w)))
                0%nat) = 16.
Proof.
  pose proof (loadReplay_twice_captures_override (new_Mods 0) (new_Mods 16) 0%nat
                (enableModsOverride (new_Mods 16) Scenario.fresh)
                ltac:(reflexivity)) as H.
  cbv zeta in H |- *. destruct H as (_ & _ & H3 & H4).
  split; [reflexivity|]. split; [rewrite H3; reflexivity | rewrite H4; reflexivity].
Defined.
